(** * CLibUSB: the libusb bridge header and the header-search shim

    The repository consists of two C headers and nothing else:

    - [Sources/CLibUSB/LibUSBBridge.h], which names three incomplete struct
      types, defines fifteen integer constants as object-like macros and
      declares eleven functions of libusb 1.0;
    - [Modules/LibUSB/Sources/CLibUSB/shim.h], which picks the libusb
      system header with [__has_include].

    Both are embedded as the list of their logical lines.  A small C
    preprocessor (conditional groups, [#define], [#include], [#error])
    runs over such a list and produces the macro table and the sequence of
    declarations a translation unit ends up with.  Every statement below is
    about the result of running that preprocessor on the two headers. *)

From Stdlib Require Import ZArith List String Ascii Bool Lia.
Import ListNotations.

Local Open Scope string_scope.
Local Open Scope Z_scope.

(** ** C declarations *)

Module C.

(** The types that occur in the headers.  [TStruct tag] is [struct tag];
    [TNamed n] is a typedef name; [TUInt16] is [uint16_t] of <stdint.h>. *)
Inductive ctype : Type :=
| TVoid
| TInt
| TUInt
| TUChar
| TUInt16
| TStruct (tag : string)
| TNamed (name : string)
| TPtr (t : ctype).

Record param : Type := Param { p_type : ctype; p_name : string }.

(** File-scope declarations.  [DStructDef] is a struct definition with a
    member list; neither header contains one, the constructor is there so
    that its absence can be stated. *)
Inductive decl : Type :=
| DTypedef (t : ctype) (name : string)
| DStructDef (tag : string) (members : list param)
| DProto (ret : ctype) (name : string) (params : list param).

Fixpoint ctype_eqb (a b : ctype) : bool :=
  match a, b with
  | TVoid, TVoid | TInt, TInt | TUInt, TUInt
  | TUChar, TUChar | TUInt16, TUInt16 => true
  | TStruct x, TStruct y => String.eqb x y
  | TNamed x, TNamed y => String.eqb x y
  | TPtr x, TPtr y => ctype_eqb x y
  | _, _ => false
  end.

(** The identifier a declaration introduces at file scope. *)
Definition declared_name (d : decl) : string :=
  match d with
  | DTypedef _ n => n
  | DStructDef tag _ => tag
  | DProto _ n _ => n
  end.

(** Function prototypes, as (return type, name, parameters). *)
Record proto : Type :=
  Proto { ret_type : ctype; fn_name : string; fn_params : list param }.

Definition as_proto (d : decl) : option proto :=
  match d with
  | DProto r n ps => Some (Proto r n ps)
  | _ => None
  end.

Fixpoint protos_of (ds : list decl) : list proto :=
  match ds with
  | [] => []
  | d :: ds' =>
      match as_proto d with
      | Some p => p :: protos_of ds'
      | None => protos_of ds'
      end
  end.

Fixpoint typedefs_of (ds : list decl) : list (ctype * string) :=
  match ds with
  | [] => []
  | DTypedef t n :: ds' => (t, n) :: typedefs_of ds'
  | _ :: ds' => typedefs_of ds'
  end.

Fixpoint struct_defs_of (ds : list decl) : list string :=
  match ds with
  | [] => []
  | DStructDef tag _ :: ds' => tag :: struct_defs_of ds'
  | _ :: ds' => struct_defs_of ds'
  end.

(** The parameter shape of a prototype: return type and parameter types in
    order, parameter names dropped (they are not part of a C function
    type). *)
Definition shape (p : proto) : string * ctype * list ctype :=
  (fn_name p, ret_type p, map p_type (fn_params p)).

(** Resolution of a typedef name through the declarations in scope. *)
Fixpoint resolve (ds : list decl) (n : string) : option ctype :=
  match ds with
  | [] => None
  | DTypedef t m :: ds' => if String.eqb n m then Some t else resolve ds' n
  | _ :: ds' => resolve ds' n
  end.

Definition has_struct_def (ds : list decl) (tag : string) : bool :=
  existsb (String.eqb tag) (struct_defs_of ds).

(** A type is complete when an object of it can be created, its size taken
    or a member accessed: [void] is not, a struct is only once its member
    list has been seen, a pointer always is. *)
Definition complete (ds : list decl) (t : ctype) : bool :=
  match t with
  | TVoid => false
  | TInt | TUInt | TUChar | TUInt16 => true
  | TStruct tag => has_struct_def ds tag
  | TNamed n =>
      match resolve ds n with
      | Some (TStruct tag) => has_struct_def ds tag
      | Some TVoid | None => false
      | Some _ => true
      end
  | TPtr _ => true
  end.

(** [by_value n t]: the type named [n] occurs in [t] with no pointer around
    it, so the function would receive or return an object of that type. *)
Definition by_value (n : string) (t : ctype) : bool :=
  match t with
  | TNamed m => String.eqb n m
  | TStruct m => String.eqb n m
  | _ => false
  end.

(** [mentions n t]: the type named [n] occurs anywhere in [t]. *)
Fixpoint mentions (n : string) (t : ctype) : bool :=
  match t with
  | TNamed m => String.eqb n m
  | TStruct m => String.eqb n m
  | TPtr t' => mentions n t'
  | _ => false
  end.

Definition proto_types (p : proto) : list ctype :=
  ret_type p :: map p_type (fn_params p).

End C.

(** ** Integer constant expressions of macro bodies *)

Module Literal.

Definition digit_val (c : ascii) : option Z :=
  let n := Z.of_nat (nat_of_ascii c) in
  if (48 <=? n) && (n <=? 57) then Some (n - 48)
  else if (97 <=? n) && (n <=? 102) then Some (n - 87)
  else if (65 <=? n) && (n <=? 70) then Some (n - 55)
  else None.

Fixpoint digits (base : Z) (s : string) (acc : Z) : option Z :=
  match s with
  | EmptyString => Some acc
  | String c r =>
      match digit_val c with
      | Some d => if d <? base then digits base r (base * acc + d) else None
      | None => None
      end
  end.

(** An unsuffixed C integer constant: [0x]/[0X] hexadecimal, leading [0]
    octal, otherwise decimal. *)
Definition int_constant (s : string) : option Z :=
  match s with
  | EmptyString => None
  | String "0" (String "x" r) | String "0" (String "X" r) =>
      match r with
      | EmptyString => None
      | _ => digits 16 r 0
      end
  | String "0" r => digits 8 r 0
  | _ => digits 10 s 0
  end.

(** A macro body of the bridge header: an integer constant, possibly under
    one unary minus. *)
Definition const_expr (s : string) : option Z :=
  match s with
  | String "-" r => option_map Z.opp (int_constant r)
  | _ => int_constant s
  end.

(** The object representation of a value of type [int] (32 bits, two's
    complement), as the unsigned number with the same bits. *)
Definition int_bits (v : Z) : Z := v mod 2 ^ 32.

(** The range every conforming implementation gives [int]. *)
Definition fits_int (v : Z) : bool := (-32767 <=? v) && (v <=? 32767).

End Literal.

(** ** The preprocessor *)

Module Cpp.

Import C.

Inductive cond : Type :=
| HasInclude (header : string).

(** One logical line of a header. *)
Inductive line : Type :=
| PIfndef (m : string)
| PIf (c : cond)
| PElif (c : cond)
| PElse
| PEndif
| PDefine (m : string) (body : string)
| PInclude (header : string)
| PError (msg : string)
| CDecl (d : decl).

(** What reaches the compiler proper: the text of a system header (kept
    opaque, by name) or a declaration of one of the two headers. *)
Inductive item : Type :=
| IHeader (header : string)
| IDecl (d : decl).

Inductive pp_error : Type :=
| ErrorDirective (msg : string)
| HeaderNotFound (header : string)
| StrayDirective
| UnterminatedConditional.

Inductive result (A : Type) : Type :=
| Ok (a : A)
| Err (e : pp_error).
Arguments Ok {A} a.
Arguments Err {A} e.

Definition bind {A B : Type} (r : result A) (k : A -> result B) : result B :=
  match r with
  | Ok a => k a
  | Err e => Err e
  end.

Notation "x <- r ;; k" := (bind r (fun x => k))
  (at level 61, r at next level, right associativity).

(** One open conditional group: has a branch of the group been selected
    already, and is the text of the current branch live.  A group opened
    inside skipped text counts as already selected, so that none of its
    branches is ever processed and none of its conditions evaluated. *)
Record frame : Type :=
  Frame { f_taken : bool; f_live : bool }.

Record state : Type :=
  State { macros : list (string * string);
          conds : list frame;
          emitted : list item }.

Definition initial (predefined : list (string * string)) : state :=
  State predefined [] [].

Fixpoint lookup (m : string) (env : list (string * string)) : option string :=
  match env with
  | [] => None
  | (k, v) :: env' => if String.eqb m k then Some v else lookup m env'
  end.

Definition defined (m : string) (env : list (string * string)) : bool :=
  match lookup m env with
  | Some _ => true
  | None => false
  end.

Definition live (s : state) : bool :=
  match conds s with
  | [] => true
  | f :: _ => f_live f
  end.

Section WithHeaders.

(** [available h]: the compiler finds <h> on its search path; this is what
    [__has_include(<h>)] evaluates to and what decides whether
    [#include <h>] succeeds. *)
Variable available : string -> bool.

Definition eval_cond (c : cond) : bool :=
  match c with
  | HasInclude h => available h
  end.

Definition open_group (c : bool) (s : state) : state :=
  let f := if live s then Frame c c else Frame true false in
  State (macros s) (f :: conds s) (emitted s).

Definition next_branch (c : bool) (s : state) : result state :=
  match conds s with
  | [] => Err StrayDirective
  | f :: fs =>
      let f' := if f_taken f then Frame true false else Frame c c in
      Ok (State (macros s) (f' :: fs) (emitted s))
  end.

(** One line.  A declaration in live text is handed on as written; macro
    replacement inside it is not performed, which is exact as long as no
    identifier of the declaration is a macro at that point. *)
Definition step (l : line) (s : state) : result state :=
  match l with
  | PIfndef m => Ok (open_group (negb (defined m (macros s))) s)
  | PIf c => Ok (open_group (eval_cond c) s)
  | PElif c => next_branch (eval_cond c) s
  | PElse => next_branch true s
  | PEndif =>
      match conds s with
      | [] => Err StrayDirective
      | _ :: fs => Ok (State (macros s) fs (emitted s))
      end
  | PDefine m body =>
      if live s
      then Ok (State ((m, body) :: macros s) (conds s) (emitted s))
      else Ok s
  | PInclude h =>
      if live s
      then if available h
           then Ok (State (macros s) (conds s) (emitted s ++ [IHeader h]))
           else Err (HeaderNotFound h)
      else Ok s
  | PError msg => if live s then Err (ErrorDirective msg) else Ok s
  | CDecl d =>
      if live s
      then Ok (State (macros s) (conds s) (emitted s ++ [IDecl d]))
      else Ok s
  end.

Fixpoint run (ls : list line) (s : state) : result state :=
  match ls with
  | [] => Ok s
  | l :: ls' => s' <- step l s ;; run ls' s'
  end.

(** A whole translation unit: run from the predefined macros, and require
    every conditional group to be closed at the end. *)
Definition preprocess (predefined : list (string * string))
    (ls : list line) : result (list (string * string) * list item) :=
  s <- run ls (initial predefined) ;;
  match conds s with
  | [] => Ok (macros s, emitted s)
  | _ :: _ => Err UnterminatedConditional
  end.

(** [#include]ing a file of the repository inserts its lines in place; a
    unit that includes the header [n] times is [n] copies of its lines. *)
Fixpoint included (n : nat) (header : list line) : list line :=
  match n with
  | O => []
  | S n' => header ++ included n' header
  end.

End WithHeaders.

(** The declarations that come from the lines of the two headers.  The
    text of a system header stays an [IHeader] item; what it declares is
    not looked into. *)
Fixpoint decls_of (its : list item) : list decl :=
  match its with
  | [] => []
  | IDecl d :: its' => d :: decls_of its'
  | IHeader _ :: its' => decls_of its'
  end.

(** The include-guard idiom: [#ifndef g], [#define g], the body, [#endif]. *)
Definition guarded (g : string) (body : list line) : list line :=
  PIfndef g :: PDefine g "" :: (body ++ [PEndif])%list.

(** [balanced_at d ls]: read at nesting depth [d], the lines [ls] close
    every conditional group they open and nothing more, and no [#elif] or
    [#else] of theirs belongs to a group opened before them. *)
Fixpoint balanced_at (d : nat) (ls : list line) : bool :=
  match ls with
  | [] => Nat.eqb d 0
  | PIfndef _ :: ls' | PIf _ :: ls' => balanced_at (S d) ls'
  | PElif _ :: ls' | PElse :: ls' =>
      match d with
      | O => false
      | S _ => balanced_at d ls'
      end
  | PEndif :: ls' =>
      match d with
      | O => false
      | S d' => balanced_at d' ls'
      end
  | PDefine _ _ :: ls' | PInclude _ :: ls' | PError _ :: ls'
  | CDecl _ :: ls' => balanced_at d ls'
  end.

End Cpp.

(** ** The two headers, line by line *)

Module Headers.

Import C Cpp.

(** [Modules/LibUSB/Sources/CLibUSB/shim.h] *)
Definition shim_h : list line :=
  [ PIfndef "CLibUSB_shim";
    PDefine "CLibUSB_shim" "";
    PIf (HasInclude "libusb-1.0/libusb.h");
    PInclude "libusb-1.0/libusb.h";
    PElif (HasInclude "libusb.h");
    PInclude "libusb.h";
    PElse;
    PError "libusb headers not found";
    PEndif;
    PEndif ].

Definition ctx_t : ctype := TNamed "libusb_context".
Definition handle_t : ctype := TNamed "libusb_device_handle".

(** [Sources/CLibUSB/LibUSBBridge.h] *)
Definition LibUSBBridge_h : list line :=
  [ PIfndef "LibUSBBridge_h";
    PDefine "LibUSBBridge_h" "";
    PInclude "stddef.h";
    PInclude "stdint.h";
    CDecl (DTypedef (TStruct "libusb_context") "libusb_context");
    CDecl (DTypedef (TStruct "libusb_device") "libusb_device");
    CDecl (DTypedef (TStruct "libusb_device_handle") "libusb_device_handle");
    PDefine "LIBUSB_SUCCESS" "0";
    PDefine "LIBUSB_ERROR_IO" "-1";
    PDefine "LIBUSB_ERROR_INVALID_PARAM" "-2";
    PDefine "LIBUSB_ERROR_ACCESS" "-3";
    PDefine "LIBUSB_ERROR_NO_DEVICE" "-4";
    PDefine "LIBUSB_ERROR_NOT_FOUND" "-5";
    PDefine "LIBUSB_ERROR_BUSY" "-6";
    PDefine "LIBUSB_ERROR_TIMEOUT" "-7";
    PDefine "LIBUSB_ERROR_PIPE" "-8";
    PDefine "LIBUSB_ERROR_INTERRUPTED" "-10";
    PDefine "LIBUSB_ERROR_NO_MEM" "-11";
    PDefine "LIBUSB_ERROR_NOT_SUPPORTED" "-12";
    PDefine "LIBUSB_TRANSFER_TYPE_INTERRUPT" "3";
    PDefine "LIBUSB_ENDPOINT_IN" "0x80";
    PDefine "LIBUSB_ENDPOINT_OUT" "0x00";
    CDecl (DProto TInt "libusb_init" [Param (TPtr (TPtr ctx_t)) "ctx"]);
    CDecl (DProto TVoid "libusb_exit" [Param (TPtr ctx_t) "ctx"]);
    CDecl (DProto (TPtr handle_t) "libusb_open_device_with_vid_pid"
             [Param (TPtr ctx_t) "ctx"; Param TUInt16 "vid";
              Param TUInt16 "pid"]);
    CDecl (DProto TVoid "libusb_close" [Param (TPtr handle_t) "dev_handle"]);
    CDecl (DProto TInt "libusb_kernel_driver_active"
             [Param (TPtr handle_t) "dev_handle";
              Param TInt "interface_number"]);
    CDecl (DProto TInt "libusb_detach_kernel_driver"
             [Param (TPtr handle_t) "dev_handle";
              Param TInt "interface_number"]);
    CDecl (DProto TInt "libusb_attach_kernel_driver"
             [Param (TPtr handle_t) "dev_handle";
              Param TInt "interface_number"]);
    CDecl (DProto TInt "libusb_claim_interface"
             [Param (TPtr handle_t) "dev_handle";
              Param TInt "interface_number"]);
    CDecl (DProto TInt "libusb_release_interface"
             [Param (TPtr handle_t) "dev_handle";
              Param TInt "interface_number"]);
    CDecl (DProto TInt "libusb_interrupt_transfer"
             [Param (TPtr handle_t) "dev_handle";
              Param TUChar "endpoint";
              Param (TPtr TUChar) "data";
              Param TInt "length";
              Param (TPtr TInt) "actual_length";
              Param TUInt "timeout"]);
    CDecl (DProto TInt "libusb_reset_device"
             [Param (TPtr handle_t) "dev_handle"]);
    PEndif ].

(** A hosted implementation without libusb installed: the two standard
    headers the bridge asks for are there, nothing else is needed. *)
Definition std_headers (h : string) : bool :=
  String.eqb h "stddef.h" || String.eqb h "stdint.h".

(** What a translation unit that includes the bridge gets. *)
Definition bridge_unit : result (list (string * string) * list item) :=
  preprocess std_headers [] LibUSBBridge_h.

(** Macros of the bridge, in the order of their definition. *)
Definition bridge_macros : list (string * string) :=
  match bridge_unit with
  | Ok (ms, _) => rev ms
  | Err _ => []
  end.

Definition bridge_decls : list decl :=
  match bridge_unit with
  | Ok (_, its) => decls_of its
  | Err _ => []
  end.

Definition bridge_protos : list proto := protos_of bridge_decls.

Fixpoint valued (ms : list (string * string)) : list (string * Z) :=
  match ms with
  | [] => []
  | (n, body) :: ms' =>
      match Literal.const_expr body with
      | Some v => (n, v) :: valued ms'
      | None => valued ms'
      end
  end.

(** The constants of the bridge: every macro whose body is an integer
    constant expression, with its value. *)
Definition constants : list (string * Z) := valued bridge_macros.

(** The value a use of the macro [n] has after inclusion of the bridge. *)
Definition constant (n : string) : option Z :=
  match lookup n (rev bridge_macros) with
  | Some body => Literal.const_expr body
  | None => None
  end.

Definition is_error_name (n : string) : bool := prefix "LIBUSB_ERROR_" n.

Definition error_constants : list (string * Z) :=
  filter (fun nv => is_error_name (fst nv)) constants.

(** The return codes that have a name: success and the errors. *)
Definition return_codes : list (string * Z) :=
  filter (fun nv => String.eqb (fst nv) "LIBUSB_SUCCESS"
                    || is_error_name (fst nv)) constants.

(** The names a return code [z] has in the bridge. *)
Definition names_of_code (z : Z) : list string :=
  map fst (filter (fun nv => snd nv =? z) return_codes).

Definition returns_int (p : proto) : bool := ctype_eqb (ret_type p) TInt.

Definition handle_names : list string :=
  map snd (typedefs_of bridge_decls).

Definition is_struct_def (l : line) : bool :=
  match l with
  | CDecl (DStructDef _ _) => true
  | _ => false
  end.

Definition has_param_named (n : string) (p : proto) : bool :=
  existsb (fun q => String.eqb (p_name q) n) (fn_params p).

(** Does the function's name speak of a transfer. *)
Definition is_transfer (p : proto) : bool :=
  match index 0 "transfer" (fn_name p) with
  | Some _ => true
  | None => false
  end.

(** No handle type is received or returned as an object: wherever one of
    them occurs in the prototype it is behind a pointer. *)
Definition handles_by_pointer (p : proto) : bool :=
  forallb (fun t => forallb (fun n => negb (by_value n t)) handle_names)
    (proto_types p).

(** The prototypes in which the type named [n] occurs. *)
Definition users_of (n : string) : list string :=
  map fn_name
    (filter (fun p => existsb (mentions n) (proto_types p)) bridge_protos).

(** A header without its include guard: the lines between the opening
    [#ifndef]/[#define] pair and the closing [#endif]. *)
Definition unguarded (h : list line) : list line :=
  match h with
  | PIfndef _ :: PDefine _ _ :: body => removelast body
  | _ => h
  end.

End Headers.

(** ** libusb 1.0 as published

    The reference side of the comparison: the enumerators and prototypes of
    libusb 1.0's own public header [libusb.h], restricted for the
    prototypes to the functions the bridge redeclares. *)

Module Libusb.

Import C.

(** [enum libusb_error] *)
Definition libusb_error : list (string * Z) :=
  [ ("LIBUSB_SUCCESS", 0);
    ("LIBUSB_ERROR_IO", -1);
    ("LIBUSB_ERROR_INVALID_PARAM", -2);
    ("LIBUSB_ERROR_ACCESS", -3);
    ("LIBUSB_ERROR_NO_DEVICE", -4);
    ("LIBUSB_ERROR_NOT_FOUND", -5);
    ("LIBUSB_ERROR_BUSY", -6);
    ("LIBUSB_ERROR_TIMEOUT", -7);
    ("LIBUSB_ERROR_OVERFLOW", -8);
    ("LIBUSB_ERROR_PIPE", -9);
    ("LIBUSB_ERROR_INTERRUPTED", -10);
    ("LIBUSB_ERROR_NO_MEM", -11);
    ("LIBUSB_ERROR_NOT_SUPPORTED", -12);
    ("LIBUSB_ERROR_OTHER", -99) ].

(** [enum libusb_transfer_type] and [enum libusb_endpoint_direction], the
    enumerators the bridge restates. *)
Definition libusb_misc : list (string * Z) :=
  [ ("LIBUSB_TRANSFER_TYPE_INTERRUPT", 3);
    ("LIBUSB_ENDPOINT_IN", 128);
    ("LIBUSB_ENDPOINT_OUT", 0) ].

Fixpoint assoc (n : string) (tbl : list (string * Z)) : option Z :=
  match tbl with
  | [] => None
  | (k, v) :: tbl' => if String.eqb n k then Some v else assoc n tbl'
  end.

Definition published (n : string) : option Z :=
  assoc n (libusb_error ++ libusb_misc).

Definition ctx : ctype := TNamed "libusb_context".
Definition handle : ctype := TNamed "libusb_device_handle".

(** Function types (name, return type, parameter types) of the eleven
    functions in libusb 1.0. *)
Definition api : list (string * ctype * list ctype) :=
  [ ("libusb_init", TInt, [TPtr (TPtr ctx)]);
    ("libusb_exit", TVoid, [TPtr ctx]);
    ("libusb_open_device_with_vid_pid", TPtr handle,
       [TPtr ctx; TUInt16; TUInt16]);
    ("libusb_close", TVoid, [TPtr handle]);
    ("libusb_kernel_driver_active", TInt, [TPtr handle; TInt]);
    ("libusb_detach_kernel_driver", TInt, [TPtr handle; TInt]);
    ("libusb_attach_kernel_driver", TInt, [TPtr handle; TInt]);
    ("libusb_claim_interface", TInt, [TPtr handle; TInt]);
    ("libusb_release_interface", TInt, [TPtr handle; TInt]);
    ("libusb_interrupt_transfer", TInt,
       [TPtr handle; TUChar; TPtr TUChar; TInt; TPtr TInt; TUInt]);
    ("libusb_reset_device", TInt, [TPtr handle]) ].

(** The eleven error kinds of the library's return convention, with the
    macro that names each. *)
Inductive error_kind : Type :=
| Io | InvalidParameter | AccessDenied | NoDevice | NotFound | Busy
| Timeout | Pipe | Interrupted | NoMemory | NotSupported.

Definition all_kinds : list error_kind :=
  [Io; InvalidParameter; AccessDenied; NoDevice; NotFound; Busy;
   Timeout; Pipe; Interrupted; NoMemory; NotSupported].

Definition macro_of (k : error_kind) : string :=
  match k with
  | Io => "LIBUSB_ERROR_IO"
  | InvalidParameter => "LIBUSB_ERROR_INVALID_PARAM"
  | AccessDenied => "LIBUSB_ERROR_ACCESS"
  | NoDevice => "LIBUSB_ERROR_NO_DEVICE"
  | NotFound => "LIBUSB_ERROR_NOT_FOUND"
  | Busy => "LIBUSB_ERROR_BUSY"
  | Timeout => "LIBUSB_ERROR_TIMEOUT"
  | Pipe => "LIBUSB_ERROR_PIPE"
  | Interrupted => "LIBUSB_ERROR_INTERRUPTED"
  | NoMemory => "LIBUSB_ERROR_NO_MEM"
  | NotSupported => "LIBUSB_ERROR_NOT_SUPPORTED"
  end.

End Libusb.


(** ** Comparison of the bridge with libusb *)

Module Conformance.

Import C Cpp Headers.

(** A constant of the bridge agrees with libusb when libusb publishes a
    constant of that name with that value. *)
Definition agrees (nv : string * Z) : bool :=
  match Libusb.published (fst nv) with
  | Some v => v =? snd nv
  | None => false
  end.

Definition disagreeing : list (string * Z) :=
  filter (fun nv => negb (agrees nv)) constants.



(** The integers [lo], [lo + 1], ..., [lo + n - 1]. *)
Definition codes_from (lo : Z) (n : nat) : list Z :=
  map (fun i => lo + Z.of_nat i) (seq 0 n).


End Conformance.

(** ** Translation units built from the two headers *)

Module Units.

Import C Cpp Headers.

Inductive header : Type := Shim | Bridge.

Definition lines_of (h : header) : list line :=
  match h with
  | Shim => shim_h
  | Bridge => LibUSBBridge_h
  end.

(** The guard macro of a header: the one its first line tests. *)
Definition guard_of (h : header) : string :=
  match lines_of h with
  | PIfndef g :: _ => g
  | _ => ""
  end.

Definition header_eqb (a b : header) : bool :=
  match a, b with
  | Shim, Shim | Bridge, Bridge => true
  | _, _ => false
  end.

(** A unit that includes the headers [us], in that order. *)
Fixpoint unit_of (us : list header) : list line :=
  match us with
  | [] => []
  | u :: us' => lines_of u ++ unit_of us'
  end.

(** The inclusions of [us] that are the first of their header, those of
    [seen] counting as included before. *)
Fixpoint first_inclusions (seen us : list header) : list header :=
  match us with
  | [] => []
  | u :: us' =>
      if existsb (header_eqb u) seen
      then first_inclusions seen us'
      else u :: first_inclusions (u :: seen) us'
  end.

(** What one effective inclusion of the bridge adds: its macros, latest
    first as in the macro table, and its items. *)
Definition bridge_defs : list (string * string) := rev bridge_macros.

Definition bridge_items : list item :=
  match bridge_unit with
  | Ok (_, its) => its
  | Err _ => []
  end.

Definition failed {A : Type} (r : result A) : bool :=
  match r with
  | Ok _ => false
  | Err _ => true
  end.

(** The same outcome with [out0] emitted before it. *)
Definition prepend (out0 : list item) (r : result state) : result state :=
  match r with
  | Ok s => Ok (State (macros s) (conds s) (out0 ++ emitted s))
  | Err e => Err e
  end.

Definition includes (h : header) (us : list header) : bool :=
  existsb (header_eqb h) us.

(** The declarations a unit is to end up with: those of the bridge when
    the unit includes the bridge and did not predefine its guard. *)
Definition expected_decls (predefined : list (string * string))
    (us : list header) : list decl :=
  if includes Bridge us && negb (defined (guard_of Bridge) predefined)
  then bridge_decls
  else [].

(** What the shim can emit, and what a unit of the two headers can. *)
Definition shim_parts : list (list item) :=
  [ [IHeader "libusb-1.0/libusb.h"]; [IHeader "libusb.h"] ].

Definition unit_outputs : list (list item) :=
  [] :: bridge_items
  :: shim_parts
  ++ map (fun sp : list item => (sp ++ bridge_items)%list) shim_parts
  ++ map (fun sp : list item => (bridge_items ++ sp)%list) shim_parts.

(** *** Declaration before use *)

Record scope : Type :=
  Scope { sc_headers : list string; sc_decls : list decl }.

(** A type can be written at a point of the unit when its names are in
    scope there: [uint16_t] once <stdint.h> has been included, a typedef
    name once its typedef has been seen. *)
Fixpoint type_known (sc : scope) (t : ctype) : bool :=
  match t with
  | TVoid | TInt | TUInt | TUChar => true
  | TUInt16 => existsb (String.eqb "stdint.h") (sc_headers sc)
  | TStruct _ => true
  | TNamed n =>
      match resolve (sc_decls sc) n with
      | Some _ => true
      | None => false
      end
  | TPtr t' => type_known sc t'
  end.

Fixpoint distinct (l : list string) : bool :=
  match l with
  | [] => true
  | x :: r => negb (existsb (String.eqb x) r) && distinct r
  end.

(** A parameter or member has a complete type. *)
Definition param_ok (sc : scope) (p : param) : bool :=
  type_known sc (p_type p) && complete (sc_decls sc) (p_type p).

(** A function returns [void] or an object of complete type. *)
Definition ret_ok (sc : scope) (t : ctype) : bool :=
  type_known sc t && (ctype_eqb t TVoid || complete (sc_decls sc) t).

Definition fresh (sc : scope) (n : string) : bool :=
  negb (existsb (String.eqb n) (map declared_name (sc_decls sc))).

Definition decl_ok (sc : scope) (d : decl) : bool :=
  match d with
  | DTypedef t n => type_known sc t && fresh sc n
  | DStructDef tag ms =>
      forallb (param_ok sc) ms && distinct (map p_name ms) && fresh sc tag
  | DProto r n ps =>
      ret_ok sc r && forallb (param_ok sc) ps
      && distinct (map p_name ps) && fresh sc n
  end.

(** Every declaration of the unit is acceptable where it stands, given
    the headers and declarations before it. *)
Fixpoint well_scoped_from (sc : scope) (its : list item) : bool :=
  match its with
  | [] => true
  | IHeader h :: its' =>
      well_scoped_from (Scope (h :: sc_headers sc) (sc_decls sc)) its'
  | IDecl d :: its' =>
      decl_ok sc d
      && well_scoped_from (Scope (sc_headers sc) (sc_decls sc ++ [d])) its'
  end.

Definition well_scoped (its : list item) : bool :=
  well_scoped_from (Scope [] []) its.

(** *** Identifiers and predefined macros

    Macro replacement applies to the identifiers of a declaration.  The
    preprocessor above hands declarations on as written, which is what a
    compiler does as long as no identifier of theirs is a macro at that
    point; [clean] is that condition on the macros a unit starts with. *)

Fixpoint type_idents (t : ctype) : list string :=
  match t with
  | TVoid => ["void"]
  | TInt => ["int"]
  | TUInt => ["unsigned"; "int"]
  | TUChar => ["unsigned"; "char"]
  | TUInt16 => ["uint16_t"]
  | TStruct tag => ["struct"; tag]
  | TNamed n => [n]
  | TPtr t' => type_idents t'
  end.

Definition param_idents (p : param) : list string :=
  type_idents (p_type p) ++ [p_name p].

Definition decl_idents (d : decl) : list string :=
  match d with
  | DTypedef t n => "typedef" :: type_idents t ++ [n]
  | DStructDef tag ms => "struct" :: tag :: flat_map param_idents ms
  | DProto r n ps => type_idents r ++ n :: flat_map param_idents ps
  end.

(** The identifiers a line offers to macro replacement, and the macro
    name a [#define] introduces. *)
Definition line_idents (l : line) : list string :=
  match l with
  | CDecl d => decl_idents d
  | PDefine m _ => [m]
  | _ => []
  end.

(** The names of a header that a predefined macro must stay clear of:
    those of the lines inside its include guard.  The guard macro itself
    is not among them; a unit may well predefine it. *)
Definition protected_names (h : header) : list string :=
  flat_map line_idents (unguarded (lines_of h)).

Definition clean (predefined : list (string * string)) : bool :=
  forallb (fun n => negb (defined n predefined))
    (flat_map protected_names [Shim; Bridge]).

(** *** What each header emits on its own *)



(** *** Endpoint addresses *)

(** The range of [unsigned char], the type of the [endpoint] parameter. *)
Definition fits_uchar (v : Z) : bool := (0 <=? v) && (v <=? 255).

(** The address a caller passes for endpoint number [n]: the direction
    macro [dir] or-ed with the number.  There is none when [dir] is not a
    constant of the bridge. *)
Definition endpoint_address (dir : string) (n : Z) : option Z :=
  option_map (fun d => Z.lor d n) (constant dir).

(** The direction of an address: the address under the mask
    [LIBUSB_ENDPOINT_IN]. *)
Definition direction_of (a : Z) : option Z :=
  option_map (Z.land a) (constant "LIBUSB_ENDPOINT_IN").

Definition opt_is (o : option Z) (v : Z) : bool :=
  match o with
  | Some x => x =? v
  | None => false
  end.

Definition endpoint_check (n : Z) : bool :=
  opt_is (endpoint_address "LIBUSB_ENDPOINT_IN" n) (128 + n)
  && opt_is (endpoint_address "LIBUSB_ENDPOINT_OUT" n) n
  && opt_is (direction_of (128 + n)) 128
  && opt_is (direction_of n) 0
  && fits_uchar (128 + n)
  && (Z.land (128 + n) 127 =? n).

End Units.

(** * Properties *)

Import C Cpp Headers Conformance.

(** ** The preprocessor on concatenated text *)

Section RunFacts.

Variable available : string -> bool.

Lemma run_app (ls1 ls2 : list line) (s : state) :
  run available (ls1 ++ ls2) s =
  (s' <- run available ls1 s ;; run available ls2 s').
Proof.
  revert s; induction ls1 as [|l ls1 IH]; intros s; simpl.
  - reflexivity.
  - destruct (step available l s) as [s1|e]; simpl; [apply IH | reflexivity].
Qed.

(** Macros are never removed. *)
Lemma step_keeps_defined (g : string) (l : line) (s s' : state) :
  step available l s = Ok s' ->
  defined g (macros s) = true -> defined g (macros s') = true.
Proof.
  destruct s as [ms cs out]; destruct l; cbn [step macros conds emitted];
    unfold open_group, next_branch, live; cbn [macros conds emitted].
  all: try (intros [= <-]; cbn [macros]; tauto).
  - destruct cs; [discriminate | intros [= <-]; cbn [macros]; tauto].
  - destruct cs; [discriminate | intros [= <-]; cbn [macros]; tauto].
  - destruct cs; [discriminate | intros [= <-]; cbn [macros]; tauto].
  - destruct (match cs with [] => true | f :: _ => f_live f end);
      intros [= <-]; cbn [macros]; [|tauto].
    intros Hd; unfold defined in *; cbn [lookup].
    destruct (String.eqb g m); [reflexivity | exact Hd].
  - destruct (match cs with [] => true | f :: _ => f_live f end);
      [destruct (available header); [|discriminate]|];
      intros [= <-]; cbn [macros]; tauto.
  - destruct (match cs with [] => true | f :: _ => f_live f end);
      [discriminate|]; intros [= <-]; cbn [macros]; tauto.
  - destruct (match cs with [] => true | f :: _ => f_live f end);
      intros [= <-]; cbn [macros]; tauto.
Qed.

(** Balanced lines leave the groups that were open before them as they
    were, and keep every macro defined. *)
Lemma run_balanced (g : string) (ls : list line) :
  forall (d : nat) (top below : list frame) (s s' : state),
    balanced_at d ls = true ->
    conds s = (top ++ below)%list -> List.length top = d ->
    run available ls s = Ok s' ->
    conds s' = below
    /\ (defined g (macros s) = true -> defined g (macros s') = true).
Proof.
  induction ls as [|l ls IH]; intros d top below s s' Hb Hc Hlen Hrun.
  - cbn in Hb, Hrun; apply Nat.eqb_eq in Hb; subst d.
    destruct top; [|discriminate].
    injection Hrun as <-; auto.
  - cbn [run] in Hrun.
    destruct (step available l s) as [s1|e] eqn:Hstep; [|discriminate].
    cbn [bind] in Hrun.
    pose proof (step_keeps_defined g l s s1 Hstep) as Hkeep.
    assert (Hnext : exists d1 top1,
               balanced_at d1 ls = true
               /\ conds s1 = (top1 ++ below)%list
               /\ List.length top1 = d1).
    { destruct s as [ms cs out]; cbn [conds] in Hc; subst cs.
      destruct l; cbn [step balanced_at] in Hstep, Hb;
        unfold open_group, next_branch in Hstep;
        cbn [macros conds emitted] in Hstep.
      - injection Hstep as <-; eexists (S d), (_ :: top).
        cbn [conds List.length app]; auto.
      - injection Hstep as <-; eexists (S d), (_ :: top).
        cbn [conds List.length app]; auto.
      - destruct d as [|d0]; [discriminate|].
        destruct top as [|f top0]; [discriminate|].
        cbn [app] in Hstep; injection Hstep as <-.
        eexists (S d0), (_ :: top0); cbn [conds List.length app]; auto.
      - destruct d as [|d0]; [discriminate|].
        destruct top as [|f top0]; [discriminate|].
        cbn [app] in Hstep; injection Hstep as <-.
        eexists (S d0), (_ :: top0); cbn [conds List.length app]; auto.
      - destruct d as [|d0]; [discriminate|].
        destruct top as [|f top0]; [discriminate|].
        cbn [app] in Hstep; injection Hstep as <-.
        cbn [List.length] in Hlen; injection Hlen as Hlen.
        exists d0, top0; cbn [conds]; auto.
      - exists d, top; destruct (live _) in Hstep;
          injection Hstep as <-; cbn [conds]; auto.
      - exists d, top; destruct (live _) in Hstep;
          [destruct (available header) in Hstep; [|discriminate]|];
          injection Hstep as <-; cbn [conds]; auto.
      - exists d, top; destruct (live _) in Hstep; [discriminate|].
        injection Hstep as <-; cbn [conds]; auto.
      - exists d, top; destruct (live _) in Hstep;
          injection Hstep as <-; cbn [conds]; auto. }
    destruct Hnext as (d1 & top1 & Hb1 & Hc1 & Hlen1).
    destruct (IH d1 top1 below s1 s' Hb1 Hc1 Hlen1 Hrun) as [Hbelow Hdef].
    auto.
Qed.

(** Inside a group that is being skipped, balanced lines do nothing. *)
Lemma run_skipped (ls : list line) :
  forall (d : nat) (ms : list (string * string)) (fs : list frame)
         (out : list item),
    balanced_at d ls = true ->
    run available ls
      (State ms (repeat (Frame true false) d ++ Frame false false :: fs) out)
    = Ok (State ms (Frame false false :: fs) out).
Proof.
  induction ls as [|l ls IH]; intros d ms fs out Hb.
  - cbn in Hb; apply Nat.eqb_eq in Hb; subst d; reflexivity.
  - assert (Hdead : live (State ms (repeat (Frame true false) d
                                      ++ Frame false false :: fs) out)
                    = false)
      by (destruct d; reflexivity).
    cbn [run]; destruct l; cbn [step balanced_at] in *;
      unfold open_group, next_branch; rewrite ?Hdead;
      cbn [macros conds emitted bind].
    + exact (IH (S d) ms fs out Hb).
    + exact (IH (S d) ms fs out Hb).
    + destruct d as [|d0]; [discriminate|]; cbn; exact (IH (S d0) ms fs out Hb).
    + destruct d as [|d0]; [discriminate|]; cbn; exact (IH (S d0) ms fs out Hb).
    + destruct d as [|d0]; [discriminate|]; cbn; exact (IH d0 ms fs out Hb).
    + exact (IH d ms fs out Hb).
    + exact (IH d ms fs out Hb).
    + exact (IH d ms fs out Hb).
    + exact (IH d ms fs out Hb).
Qed.

(** Once its guard macro is defined a guarded header contributes nothing. *)
Lemma guarded_skipped (g : string) (body : list line)
    (ms : list (string * string)) (out : list item) :
  balanced_at 0 body = true ->
  defined g ms = true ->
  run available (guarded g body) (State ms [] out) = Ok (State ms [] out).
Proof.
  intros Hb Hd.
  unfold guarded; cbn [run]; unfold step at 1; cbn [macros].
  rewrite Hd; cbn [negb bind]; unfold open_group; cbn.
  pose proof (run_skipped body 0 ms [] out Hb) as Hs; cbn [repeat app] in Hs.
  rewrite run_app, Hs; reflexivity.
Qed.

(** A successful first pass leaves the guard defined and no group open. *)
Lemma guarded_defines_guard (g : string) (body : list line)
    (ms : list (string * string)) (out : list item) (s' : state) :
  balanced_at 0 body = true ->
  run available (guarded g body) (State ms [] out) = Ok s' ->
  conds s' = [] /\ defined g (macros s') = true.
Proof.
  intros Hb.
  destruct (defined g ms) eqn:Hd.
  - rewrite (guarded_skipped g body ms out Hb Hd); intros [= <-]; auto.
  - unfold guarded; cbn [run]; unfold step at 1; cbn [macros].
    rewrite Hd; cbn [negb bind]; unfold open_group; cbn.
    rewrite run_app.
    destruct (run available body _) as [s1|e] eqn:Hrun; [|discriminate].
    destruct (run_balanced g body 0 [] [Frame true true]
                (State ((g, "") :: ms) [Frame true true] out) s1 Hb
                eq_refl eq_refl Hrun) as [Hc Hdef].
    destruct s1 as [ms1 cs1 out1]; cbn [conds macros] in Hc, Hdef; subst cs1.
    cbn; intros [= <-]; cbn [conds macros]; split; [reflexivity|].
    apply Hdef; unfold defined; cbn [lookup]; rewrite String.eqb_refl.
    reflexivity.
Qed.

(** A header that skips itself can be repeated at will. *)
Lemma repeat_skipped (h : list line) (s : state) :
  run available h s = Ok s ->
  forall n, run available (included n h) s = Ok s.
Proof.
  intros Hskip n; induction n as [|n IH]; cbn [included].
  - reflexivity.
  - rewrite run_app, Hskip; exact IH.
Qed.

(** The include guard at work: any number of inclusions of a guarded
    header with a balanced body amounts to one. *)
Lemma guarded_idempotent (g : string) (body : list line)
    (predefined : list (string * string)) (n : nat) :
  balanced_at 0 body = true ->
  preprocess available predefined (included (S n) (guarded g body)) =
  preprocess available predefined (guarded g body).
Proof.
  intros Hb.
  unfold preprocess, initial; cbn [included]; rewrite run_app.
  destruct (run available (guarded g body) (State predefined [] []))
    as [s'|e] eqn:H1; [|reflexivity].
  destruct s' as [ms cs out].
  destruct (guarded_defines_guard g body _ _ _ Hb H1) as [Hc Hd].
  cbn [conds macros] in Hc, Hd; subst cs.
  cbn [bind].
  rewrite (repeat_skipped (guarded g body) _
             (guarded_skipped g body ms out Hb Hd) n).
  reflexivity.
Qed.

End RunFacts.

(** ** Lists without repetition and codes with at most one name *)

Lemma nodup_fixpoint {A : Type} (dec : forall x y : A, {x = y} + {x <> y})
    (l : list A) :
  nodup dec l = l -> NoDup l.
Proof. intros <-; apply NoDup_nodup. Qed.

Lemma filter_absent (l : list (string * Z)) (z : Z) :
  ~ In z (map snd l) -> filter (fun nv => snd nv =? z) l = [].
Proof.
  induction l as [|[n v] l IH]; simpl; intros Hn.
  - reflexivity.
  - destruct (Z.eqb_spec v z) as [->|Hne].
    + exfalso; apply Hn; now left.
    + apply IH; intros Hin; apply Hn; now right.
Qed.

Lemma distinct_values_one_name (l : list (string * Z)) :
  NoDup (map snd l) ->
  forall z, (List.length (filter (fun nv => Z.eqb (snd nv) z) l) <= 1)%nat.
Proof.
  induction l as [|[n v] l IH]; simpl; intros Hnd z.
  - lia.
  - inversion Hnd as [|? ? Hnotin Hnd']; subst.
    destruct (Z.eqb_spec v z) as [->|Hne].
    + rewrite (filter_absent l z Hnotin); simpl; lia.
    + apply IH; assumption.
Qed.

(** ** The model on small inputs *)

Example const_expr_forms :
  Literal.const_expr "0x80" = Some 128
  /\ Literal.const_expr "-10" = Some (-10)
  /\ Literal.const_expr "017" = Some 15
  /\ Literal.const_expr "08" = None
  /\ Literal.const_expr "0x" = None
  /\ Literal.const_expr "" = None.
Proof. repeat split; reflexivity. Qed.

(** A unit that already defines the shim's guard gets nothing from the
    shim, and no [#error] even without libusb. *)
Example shim_with_guard_predefined :
  preprocess (fun _ => false) [("CLibUSB_shim", "1")] shim_h =
  Ok ([("CLibUSB_shim", "1")], []).
Proof. reflexivity. Qed.

(** Without <stdint.h> the bridge does not preprocess. *)
Example bridge_needs_stdint :
  preprocess (fun h => String.eqb h "stddef.h") [] LibUSBBridge_h =
  Err (HeaderNotFound "stdint.h").
Proof. reflexivity. Qed.

Example stray_endif_is_refused :
  preprocess (fun _ => true) [] [PEndif] = Err StrayDirective
  /\ preprocess (fun _ => true) [] [PIfndef "X"] = Err UnterminatedConditional.
Proof. split; reflexivity. Qed.

(** ** What the bridge contains *)

Lemma bridge_unit_ok : exists ms its, bridge_unit = Ok (ms, its).
Proof. unfold bridge_unit; vm_compute; eauto. Qed.

(** The constants as the header gives them, in order. *)
Lemma constants_listed :
  constants =
  [ ("LIBUSB_SUCCESS", 0); ("LIBUSB_ERROR_IO", -1);
    ("LIBUSB_ERROR_INVALID_PARAM", -2); ("LIBUSB_ERROR_ACCESS", -3);
    ("LIBUSB_ERROR_NO_DEVICE", -4); ("LIBUSB_ERROR_NOT_FOUND", -5);
    ("LIBUSB_ERROR_BUSY", -6); ("LIBUSB_ERROR_TIMEOUT", -7);
    ("LIBUSB_ERROR_PIPE", -8); ("LIBUSB_ERROR_INTERRUPTED", -10);
    ("LIBUSB_ERROR_NO_MEM", -11); ("LIBUSB_ERROR_NOT_SUPPORTED", -12);
    ("LIBUSB_TRANSFER_TYPE_INTERRUPT", 3); ("LIBUSB_ENDPOINT_IN", 128);
    ("LIBUSB_ENDPOINT_OUT", 0) ].
Proof. vm_compute; reflexivity. Qed.

Lemma error_values_listed :
  map snd error_constants = [-1; -2; -3; -4; -5; -6; -7; -8; -10; -11; -12].
Proof. vm_compute; reflexivity. Qed.

Lemma return_code_values_distinct : NoDup (map snd return_codes).
Proof. apply (nodup_fixpoint Z.eq_dec); vm_compute; reflexivity. Qed.

Lemma error_values_distinct : NoDup (map snd error_constants).
Proof. apply (nodup_fixpoint Z.eq_dec); vm_compute; reflexivity. Qed.

(** Macro expansion inside declarations is not modelled; it would change
    nothing, since no macro of the bridge is an identifier of one of its
    declarations. *)
Lemma no_macro_names_a_declaration :
  forallb (fun d => negb (defined (declared_name d) (rev bridge_macros)))
    bridge_decls = true.
Proof. vm_compute; reflexivity. Qed.

(** Without the guard a second inclusion repeats every declaration. *)
Lemma unguarded_bridge_repeats :
  exists ms its,
    preprocess std_headers [] (included 2 (unguarded LibUSBBridge_h))
      = Ok (ms, its)
    /\ decls_of its = (bridge_decls ++ bridge_decls)%list.
Proof. vm_compute; eauto. Qed.

(** ** The constants *)

(** C1 (the header departs from libusb at one constant).  The bridge
    defines the fifteen constants with the values written in the header;
    fourteen of them are the values libusb 1.0 publishes under the same
    name.  [LIBUSB_ERROR_PIPE] is not: the header gives it -8, libusb
    publishes -9 for it and uses -8 for [LIBUSB_ERROR_OVERFLOW], so the two
    differ as [int] object representations as well. *)
Theorem pipe_constant_departs_from_libusb :
  constant "LIBUSB_ERROR_PIPE" = Some (-8)
  /\ Libusb.published "LIBUSB_ERROR_PIPE" = Some (-9)
  /\ Libusb.published "LIBUSB_ERROR_OVERFLOW" = Some (-8)
  /\ Literal.int_bits (-8) <> Literal.int_bits (-9)
  /\ disagreeing = [("LIBUSB_ERROR_PIPE", -8)]
  /\ List.length (filter agrees constants) = 14%nat.
Proof.
  repeat split; try (vm_compute; reflexivity).
  vm_compute; discriminate.
Qed.

(** C5.  The error constants of the bridge are exactly the macros of the
    eleven error kinds (I/O, invalid parameter, access denied, no device,
    not found, busy, timeout, pipe, interrupted, no memory, not supported),
    one each and in that order; every value is strictly negative, and so
    different from the success value 0. *)
Theorem error_constants_cover_the_kinds :
  map fst error_constants = map Libusb.macro_of Libusb.all_kinds
  /\ List.length error_constants = 11%nat
  /\ NoDup (map Libusb.macro_of Libusb.all_kinds)
  /\ Forall (fun nv => snd nv < 0) error_constants
  /\ constant "LIBUSB_SUCCESS" = Some 0
  /\ Forall (fun nv => Some (snd nv) <> constant "LIBUSB_SUCCESS")
       error_constants.
Proof.
  assert (Hneg : Forall (fun nv => snd nv < 0) error_constants).
  { apply Forall_forall; intros [n v] Hin.
    apply (in_map snd) in Hin; rewrite error_values_listed in Hin.
    simpl in Hin; simpl; lia. }
  assert (Hs : constant "LIBUSB_SUCCESS" = Some 0) by (vm_compute; reflexivity).
  repeat split; try (vm_compute; reflexivity); try assumption.
  - apply (nodup_fixpoint string_dec); vm_compute; reflexivity.
  - rewrite Hs; eapply Forall_impl; [|exact Hneg].
    intros [n v]; simpl; intros Hlt [= Heq]; lia.
Qed.

(** C8.  Success and the eleven error constants have twelve pairwise
    distinct values, so every return code has at most one name. *)
Theorem return_codes_pairwise_distinct :
  map fst return_codes =
    "LIBUSB_SUCCESS" :: map Libusb.macro_of Libusb.all_kinds
  /\ NoDup (map snd return_codes)
  /\ forall z, (List.length (names_of_code z) <= 1)%nat.
Proof.
  split; [vm_compute; reflexivity|].
  split; [exact return_code_values_distinct|].
  intros z; unfold names_of_code; rewrite length_map.
  apply distinct_values_one_name, return_code_values_distinct.
Qed.



(** ** The declarations *)

(** C4.  The bridge declares eleven functions and no others: context
    init/exit, open by VID/PID and close, kernel-driver query, detach and
    attach, interface claim and release, the interrupt transfer and the
    device reset; each has the name, return type and parameter types that
    libusb 1.0 gives it. *)
Theorem bridge_declares_the_subset :
  map fn_name bridge_protos =
    [ "libusb_init"; "libusb_exit";
      "libusb_open_device_with_vid_pid"; "libusb_close";
      "libusb_kernel_driver_active"; "libusb_detach_kernel_driver";
      "libusb_attach_kernel_driver";
      "libusb_claim_interface"; "libusb_release_interface";
      "libusb_interrupt_transfer";
      "libusb_reset_device" ]
  /\ NoDup (map fn_name bridge_protos)
  /\ map shape bridge_protos = Libusb.api.
Proof.
  split; [vm_compute; reflexivity|].
  split; [|vm_compute; reflexivity].
  apply (nodup_fixpoint string_dec); vm_compute; reflexivity.
Qed.

(** C2, as the claim words it, does not hold: not every declared function
    returns [int]; [libusb_exit] returns nothing. *)
Lemma not_every_function_returns_a_code :
  ~ (forall p, In p bridge_protos -> ret_type p = TInt).
Proof.
  intros H.
  specialize (H (Proto TVoid "libusb_exit"
                   [Param (TPtr (TNamed "libusb_context")) "ctx"])).
  assert (Hin : In (Proto TVoid "libusb_exit"
                      [Param (TPtr (TNamed "libusb_context")) "ctx"])
                   bridge_protos)
    by (vm_compute; right; left; reflexivity).
  specialize (H Hin); discriminate H.
Qed.

(** C2, amended.  Eight of the eleven declared functions return [int];
    for that result the bridge names 0 as success and eleven negative
    error codes, all within the range of [int].  The other three return no
    code: [libusb_exit] and [libusb_close] return [void], and
    [libusb_open_device_with_vid_pid] returns a pointer to a device
    handle. *)
Theorem return_convention_of_the_bridge :
  map fn_name (filter returns_int bridge_protos) =
    [ "libusb_init"; "libusb_kernel_driver_active";
      "libusb_detach_kernel_driver"; "libusb_attach_kernel_driver";
      "libusb_claim_interface"; "libusb_release_interface";
      "libusb_interrupt_transfer"; "libusb_reset_device" ]
  /\ map (fun p => (fn_name p, ret_type p))
       (filter (fun p => negb (returns_int p)) bridge_protos) =
     [ ("libusb_exit", TVoid);
       ("libusb_open_device_with_vid_pid",
        TPtr (TNamed "libusb_device_handle"));
       ("libusb_close", TVoid) ]
  /\ constant "LIBUSB_SUCCESS" = Some 0
  /\ Forall (fun nv => snd nv < 0 /\ Literal.fits_int (snd nv) = true)
       error_constants.
Proof.
  repeat split; try (vm_compute; reflexivity).
  apply Forall_forall; intros [n v] Hin.
  apply (in_map snd) in Hin; rewrite error_values_listed in Hin.
  simpl in Hin; simpl.
  repeat (destruct Hin as [<-|Hin]; [split; [lia | reflexivity]|]).
  contradiction.
Qed.

(** C6.  The bridge names exactly three handle types, [libusb_context],
    [libusb_device] and [libusb_device_handle], each a typedef of a struct
    of the same tag; neither header contains a struct definition, so all
    three are incomplete types; and no prototype receives or returns one
    of them as an object: every occurrence is behind a pointer. *)
Theorem handles_are_opaque :
  typedefs_of bridge_decls =
    [ (TStruct "libusb_context", "libusb_context");
      (TStruct "libusb_device", "libusb_device");
      (TStruct "libusb_device_handle", "libusb_device_handle") ]
  /\ existsb is_struct_def (LibUSBBridge_h ++ shim_h) = false
  /\ struct_defs_of bridge_decls = []
  /\ Forall (fun n => complete bridge_decls (TNamed n) = false
                      /\ complete bridge_decls (TStruct n) = false)
       handle_names
  /\ forallb handles_by_pointer bridge_protos = true
  /\ users_of "libusb_context" =
       ["libusb_init"; "libusb_exit"; "libusb_open_device_with_vid_pid"]
  /\ users_of "libusb_device" = []
  /\ List.length (users_of "libusb_device_handle") = 9%nat.
Proof.
  repeat split; try (vm_compute; reflexivity).
  repeat constructor.
Qed.

(** C7.  Exactly one declared function is a transfer,
    [libusb_interrupt_transfer]; it takes the device handle, the endpoint,
    the data buffer and its length, a pointer through which the
    transferred length is returned and an [unsigned int] timeout, and it
    returns [int]: the type libusb 1.0 gives its blocking interrupt
    transfer.  No other declared function takes a timeout. *)
Theorem interrupt_transfer_signature :
  filter is_transfer bridge_protos =
    [ Proto TInt "libusb_interrupt_transfer"
        [ Param (TPtr (TNamed "libusb_device_handle")) "dev_handle";
          Param TUChar "endpoint";
          Param (TPtr TUChar) "data";
          Param TInt "length";
          Param (TPtr TInt) "actual_length";
          Param TUInt "timeout" ] ]
  /\ map fn_name (filter (has_param_named "timeout") bridge_protos) =
       ["libusb_interrupt_transfer"]
  /\ filter (fun sh => String.eqb (fst (fst sh)) "libusb_interrupt_transfer")
       Libusb.api =
     map shape (filter is_transfer bridge_protos).
Proof. repeat split; vm_compute; reflexivity. Qed.

(** ** Header selection and include guards *)

(** C3.  In a unit that has not defined the shim's guard, the shim
    includes <libusb-1.0/libusb.h> if that header is available; otherwise
    <libusb.h> if that one is; otherwise preprocessing stops at the
    [#error] directive. *)
Theorem shim_precedence (available : string -> bool)
    (predefined : list (string * string)) :
  defined "CLibUSB_shim" predefined = false ->
  preprocess available predefined shim_h =
    if available "libusb-1.0/libusb.h"
    then Ok (("CLibUSB_shim", "") :: predefined,
             [IHeader "libusb-1.0/libusb.h"])
    else if available "libusb.h"
    then Ok (("CLibUSB_shim", "") :: predefined, [IHeader "libusb.h"])
    else Err (ErrorDirective "libusb headers not found").
Proof.
  intros Hd.
  unfold preprocess, initial, shim_h; cbn [run]; unfold step at 1.
  cbn [macros]; rewrite Hd; lazy.
  destruct (available "libusb-1.0/libusb.h"); [reflexivity|].
  destruct (available "libusb.h"); reflexivity.
Qed.

Lemma shim_precedence_witness :
  preprocess (fun h => String.eqb h "libusb.h") [] shim_h =
    Ok ([("CLibUSB_shim", "")], [IHeader "libusb.h"]).
Proof.
  exact (shim_precedence (fun h => String.eqb h "libusb.h") [] eq_refl).
Defined.

(** C10.  Whatever headers are available and whatever macros are
    predefined, a unit that includes the shim, or the bridge, several
    times is preprocessed to exactly what one inclusion gives (the same
    macros and declarations, or the same failure); and the declarations
    and macros of the bridge contain no name twice. *)
Theorem inclusion_is_idempotent (available : string -> bool)
    (predefined : list (string * string)) (n : nat) :
  preprocess available predefined (included (S n) shim_h) =
    preprocess available predefined shim_h
  /\ preprocess available predefined (included (S n) LibUSBBridge_h) =
       preprocess available predefined LibUSBBridge_h
  /\ NoDup (map declared_name bridge_decls)
  /\ NoDup (map fst bridge_macros).
Proof.
  split; [|split; [|split]].
  - change shim_h with (guarded "CLibUSB_shim" (unguarded shim_h)).
    apply guarded_idempotent; reflexivity.
  - change LibUSBBridge_h
      with (guarded "LibUSBBridge_h" (unguarded LibUSBBridge_h)).
    apply guarded_idempotent; reflexivity.
  - apply (nodup_fixpoint string_dec); vm_compute; reflexivity.
  - apply (nodup_fixpoint string_dec); vm_compute; reflexivity.
Qed.

(** * Units built from the two headers *)

Import Units.

Section UnitFacts.

Variable available : string -> bool.

(** The preprocessor only ever appends to what it has emitted. *)
Lemma step_emitted_frame (l : line) (ms : list (string * string))
    (cs : list frame) (out0 out : list item) :
  step available l (State ms cs (out0 ++ out)) =
  prepend out0 (step available l (State ms cs out)).
Proof.
  destruct l as [m|c|c| | |m body|h|msg|d]; cbn [step];
    unfold open_group, next_branch, live;
    cbn [macros conds emitted prepend]; try reflexivity.
  - destruct cs; reflexivity.
  - destruct cs; reflexivity.
  - destruct cs; reflexivity.
  - destruct (match cs with [] => true | f :: _ => f_live f end); reflexivity.
  - destruct (match cs with [] => true | f :: _ => f_live f end);
      [destruct (available h)|]; cbn [prepend macros conds emitted];
      rewrite ?app_assoc; reflexivity.
  - destruct (match cs with [] => true | f :: _ => f_live f end); reflexivity.
  - destruct (match cs with [] => true | f :: _ => f_live f end);
      cbn [prepend macros conds emitted]; rewrite ?app_assoc; reflexivity.
Qed.

Lemma run_emitted_frame (ls : list line) :
  forall (ms : list (string * string)) (cs : list frame)
         (out0 out : list item),
    run available ls (State ms cs (out0 ++ out)) =
    prepend out0 (run available ls (State ms cs out)).
Proof.
  induction ls as [|l ls IH]; intros ms cs out0 out; cbn [run].
  - reflexivity.
  - rewrite step_emitted_frame.
    destruct (step available l (State ms cs out)) as [[ms1 cs1 out1]|e];
      cbn [prepend bind macros conds emitted]; [apply IH | reflexivity].
Qed.

(** The shim, run at the top level of a unit. *)
Lemma run_shim (ms : list (string * string)) (out : list item) :
  run available shim_h (State ms [] out) =
  if defined "CLibUSB_shim" ms then Ok (State ms [] out)
  else if available "libusb-1.0/libusb.h"
  then Ok (State (("CLibUSB_shim", "") :: ms) []
             (out ++ [IHeader "libusb-1.0/libusb.h"]))
  else if available "libusb.h"
  then Ok (State (("CLibUSB_shim", "") :: ms) [] (out ++ [IHeader "libusb.h"]))
  else Err (ErrorDirective "libusb headers not found").
Proof.
  rewrite <- (app_nil_r out) at 1; rewrite run_emitted_frame.
  unfold shim_h; cbn [run]; unfold step at 1; cbn [macros].
  destruct (defined "CLibUSB_shim" ms).
  - cbn; rewrite app_nil_r; reflexivity.
  - lazy -[app].
    destruct (available "libusb-1.0/libusb.h"); [reflexivity|].
    destruct (available "libusb.h"); reflexivity.
Qed.

(** The bridge, run at the top level of a unit. *)
Lemma run_bridge (ms : list (string * string)) (out : list item) :
  run available LibUSBBridge_h (State ms [] out) =
  if defined "LibUSBBridge_h" ms then Ok (State ms [] out)
  else if available "stddef.h"
  then if available "stdint.h"
       then Ok (State (bridge_defs ++ ms) [] (out ++ bridge_items))
       else Err (HeaderNotFound "stdint.h")
  else Err (HeaderNotFound "stddef.h").
Proof.
  rewrite <- (app_nil_r out) at 1; rewrite run_emitted_frame.
  unfold LibUSBBridge_h; cbn [run]; unfold step at 1; cbn [macros].
  destruct (defined "LibUSBBridge_h" ms).
  - cbn; rewrite app_nil_r; reflexivity.
  - lazy.
    destruct (available "stddef.h"); [|reflexivity].
    destruct (available "stdint.h"); reflexivity.
Qed.

(** A guard is not touched by the other header. *)
Lemma shim_guard_after_bridge (ms : list (string * string)) :
  defined "CLibUSB_shim" (bridge_defs ++ ms) = defined "CLibUSB_shim" ms.
Proof. reflexivity. Qed.

Lemma bridge_guard_after_shim (ms : list (string * string)) :
  defined "LibUSBBridge_h" (("CLibUSB_shim", "") :: ms) =
  defined "LibUSBBridge_h" ms.
Proof. reflexivity. Qed.

Lemma header_is_guarded (u : header) :
  lines_of u = guarded (guard_of u) (unguarded (lines_of u))
  /\ balanced_at 0 (unguarded (lines_of u)) = true
  /\ balanced_at 0 (lines_of u) = true.
Proof. destruct u; repeat split; reflexivity. Qed.

(** One header, run at the top level: on success no group is left open,
    the header's guard is defined and no macro has been lost. *)
Lemma run_header (u : header) (ms : list (string * string))
    (out : list item) (s' : state) :
  run available (lines_of u) (State ms [] out) = Ok s' ->
  conds s' = []
  /\ defined (guard_of u) (macros s') = true
  /\ forall g, defined g ms = true -> defined g (macros s') = true.
Proof.
  intros Hrun.
  destruct (header_is_guarded u) as (Hg & Hb & Hall).
  split; [|split].
  - rewrite Hg in Hrun.
    exact (proj1 (guarded_defines_guard available _ _ _ _ _ Hb Hrun)).
  - rewrite Hg in Hrun.
    exact (proj2 (guarded_defines_guard available _ _ _ _ _ Hb Hrun)).
  - intros g.
    exact (proj2 (run_balanced available g (lines_of u) 0 [] []
                    (State ms [] out) s' Hall eq_refl eq_refl Hrun)).
Qed.

Lemma run_header_skipped (u : header) (ms : list (string * string))
    (out : list item) :
  defined (guard_of u) ms = true ->
  run available (lines_of u) (State ms [] out) = Ok (State ms [] out).
Proof.
  intros Hd; destruct (header_is_guarded u) as (Hg & Hb & _).
  rewrite Hg; apply guarded_skipped; assumption.
Qed.

Lemma header_eqb_eq (a b : header) : header_eqb a b = true -> a = b.
Proof. destruct a, b; simpl; congruence. Qed.

(** Inclusions of a header whose guard is defined can be struck out. *)
Lemma run_first_inclusions (us : list header) :
  forall (seen : list header) (ms : list (string * string))
         (out : list item),
    (forall h, In h seen -> defined (guard_of h) ms = true) ->
    run available (unit_of us) (State ms [] out) =
    run available (unit_of (first_inclusions seen us)) (State ms [] out).
Proof.
  induction us as [|u us IH]; intros seen ms out Hseen.
  - reflexivity.
  - cbn [first_inclusions unit_of].
    destruct (existsb (header_eqb u) seen) eqn:Hmem.
    + apply existsb_exists in Hmem; destruct Hmem as (h & Hin & Heq).
      apply header_eqb_eq in Heq; subst h.
      rewrite run_app, (run_header_skipped u ms out (Hseen u Hin)).
      cbn [bind]; apply IH; assumption.
    + cbn [unit_of]; rewrite !run_app.
      destruct (run available (lines_of u) (State ms [] out))
        as [[ms1 cs1 out1]|e] eqn:Hrun; [|reflexivity].
      destruct (run_header u ms out _ Hrun) as (Hc & Hg & Hkeep).
      cbn [conds macros] in Hc, Hg, Hkeep; subst cs1; cbn [bind].
      apply IH; intros h [<-|Hin]; [exact Hg | auto].
Qed.


End UnitFacts.

(** The first inclusions of a unit, whatever was included before it. *)
Lemma first_inclusions_forms (us : list header) :
  forall seen : list header,
    let fi := first_inclusions seen us in
    match includes Shim seen, includes Bridge seen with
    | true, true => fi = []
    | true, false => fi = [] \/ fi = [Bridge]
    | false, true => fi = [] \/ fi = [Shim]
    | false, false =>
        fi = [] \/ fi = [Shim] \/ fi = [Bridge]
        \/ fi = [Shim; Bridge] \/ fi = [Bridge; Shim]
    end.
Proof.
  unfold includes.
  induction us as [|u us IH]; intros seen; cbn [first_inclusions].
  - destruct (existsb _ seen), (existsb _ seen); auto.
  - destruct u;
      destruct (existsb (header_eqb Shim) seen) eqn:HS;
      destruct (existsb (header_eqb Bridge) seen) eqn:HB;
      try (specialize (IH seen); cbn zeta in IH; rewrite HS, HB in IH;
           exact IH).
    + specialize (IH (Shim :: seen)); cbn in IH; rewrite HB in IH.
      cbn zeta; rewrite IH; auto.
    + specialize (IH (Shim :: seen)); cbn in IH; rewrite HB in IH.
      cbn zeta; destruct IH as [-> | ->]; auto.
    + specialize (IH (Bridge :: seen)); cbn in IH; rewrite HS in IH.
      cbn zeta; rewrite IH; auto.
    + specialize (IH (Bridge :: seen)); cbn in IH; rewrite HS in IH.
      cbn zeta; destruct IH as [-> | ->]; auto 6.
Qed.

Lemma first_inclusions_includes (h : header) (us : list header) :
  forall seen : list header,
    includes h (first_inclusions seen us) =
    includes h us && negb (includes h seen).
Proof.
  unfold includes.
  induction us as [|u us IH]; intros seen; cbn [first_inclusions existsb].
  - reflexivity.
  - destruct (existsb (header_eqb u) seen) eqn:Hmem.
    + rewrite IH.
      destruct (header_eqb h u) eqn:Hhu; [|reflexivity].
      apply header_eqb_eq in Hhu; subst u; rewrite Hmem.
      cbn; rewrite andb_false_r; reflexivity.
    + cbn [existsb]; rewrite IH; cbn [existsb].
      destruct (header_eqb h u) eqn:Hhu.
      * apply header_eqb_eq in Hhu; subst u; rewrite Hmem; reflexivity.
      * cbn; reflexivity.
Qed.


Lemma unit_outputs_well_scoped : forallb well_scoped unit_outputs = true.
Proof. vm_compute; reflexivity. Qed.

Lemma decls_of_app (a b : list item) :
  decls_of (a ++ b) = (decls_of a ++ decls_of b)%list.
Proof.
  induction a as [|[h|d] a IH]; cbn [app decls_of]; [reflexivity| |];
    rewrite IH; reflexivity.
Qed.

Lemma shim_part_has_no_decls (sp : list item) :
  In sp shim_parts -> decls_of sp = [].
Proof. intros [<-|[<-|[]]]; reflexivity. Qed.

Lemma unit_outputs_members (sp : list item) :
  In sp shim_parts ->
  In [] unit_outputs /\ In bridge_items unit_outputs
  /\ In sp unit_outputs
  /\ In (sp ++ bridge_items)%list unit_outputs
  /\ In (bridge_items ++ sp)%list unit_outputs.
Proof.
  unfold unit_outputs; intros Hsp.
  split; [now left|]; split; [right; now left|].
  split; [|split].
  - right; right; apply in_or_app; left; exact Hsp.
  - right; right; apply in_or_app; right; apply in_or_app; left.
    apply (in_map (fun sp : list item => (sp ++ bridge_items)%list)).
    exact Hsp.
  - right; right; apply in_or_app; right; apply in_or_app; right.
    apply (in_map (fun sp : list item => (bridge_items ++ sp)%list)).
    exact Hsp.
Qed.

(** The three things the shim can do at the top level of a unit. *)
Lemma run_shim_cases (available : string -> bool)
    (ms : list (string * string)) (out : list item) :
  (defined "CLibUSB_shim" ms = true
   /\ run available shim_h (State ms [] out) = Ok (State ms [] out))
  \/ (defined "CLibUSB_shim" ms = false
      /\ exists sp, In sp shim_parts
         /\ run available shim_h (State ms [] out) =
            Ok (State (("CLibUSB_shim", "") :: ms) [] (out ++ sp)))
  \/ (defined "CLibUSB_shim" ms = false
      /\ exists e, run available shim_h (State ms [] out) = Err e).
Proof.
  rewrite run_shim.
  destruct (defined "CLibUSB_shim" ms); [left; auto|right].
  destruct (available "libusb-1.0/libusb.h").
  { left; split; [reflexivity|]; eexists; split; [left|]; reflexivity. }
  destruct (available "libusb.h").
  { left; split; [reflexivity|].
    eexists; split; [right; left|]; reflexivity. }
  right; eauto.
Qed.

(** The three things the bridge can do at the top level of a unit. *)
Lemma run_bridge_cases (available : string -> bool)
    (ms : list (string * string)) (out : list item) :
  (defined "LibUSBBridge_h" ms = true
   /\ run available LibUSBBridge_h (State ms [] out) = Ok (State ms [] out))
  \/ (defined "LibUSBBridge_h" ms = false
      /\ run available LibUSBBridge_h (State ms [] out) =
         Ok (State (bridge_defs ++ ms) [] (out ++ bridge_items)))
  \/ (defined "LibUSBBridge_h" ms = false
      /\ exists e, run available LibUSBBridge_h (State ms [] out) = Err e).
Proof.
  rewrite run_bridge.
  destruct (defined "LibUSBBridge_h" ms); [left; auto|right].
  destruct (available "stddef.h"); [|right; eauto].
  destruct (available "stdint.h"); [left; auto|right; eauto].
Qed.

Lemma ok_pair_inj {A B : Type} (a a' : A) (b b' : B) :
  Ok (a, b) = Ok (a', b') -> a = a' /\ b = b'.
Proof. intros H; injection H; auto. Qed.

Ltac ok_inj :=
  let H := fresh in
  intros H; apply ok_pair_inj in H; destruct H as [<- <-].

(** Every successful unit of the two headers emits one of the eight
    outputs, with the bridge's declarations exactly when it includes the
    bridge and had not predefined its guard. *)
Lemma unit_result (available : string -> bool)
    (predefined : list (string * string)) (us : list header)
    (ms : list (string * string)) (its : list item) :
  preprocess available predefined (unit_of us) = Ok (ms, its) ->
  In its unit_outputs /\ decls_of its = expected_decls predefined us.
Proof.
  unfold preprocess, initial.
  rewrite (run_first_inclusions available us [] predefined []
             (fun h (H : In h []) => match H with end)).
  unfold expected_decls.
  replace (includes Bridge us)
    with (includes Bridge (first_inclusions [] us))
    by (rewrite first_inclusions_includes; apply andb_true_r).
  change (guard_of Bridge) with "LibUSBBridge_h".
  pose proof (first_inclusions_forms us []) as Hforms; cbn in Hforms.
  assert (Hbd : decls_of bridge_items = bridge_decls) by reflexivity.
  destruct (unit_outputs_members _ (or_introl eq_refl))
    as (Hnil & Hbridge & _).
  destruct Hforms as [-> | [-> | [-> | [-> | ->]]]];
    cbn [unit_of lines_of includes existsb header_eqb orb andb];
    rewrite ?app_nil_r, ?run_app.
  - cbn [run bind conds macros emitted]; ok_inj.
    split; [exact Hnil | reflexivity].
  - destruct (run_shim_cases available predefined [])
      as [[HS ->] | [[HS (sp & Hsp & ->)] | [HS (e & ->)]]];
      cbn [bind conds macros emitted app];
      [ok_inj | ok_inj | intros Hx; discriminate Hx].
    + split; [exact Hnil | reflexivity].
    + split; [apply (unit_outputs_members sp Hsp)
             | apply shim_part_has_no_decls, Hsp].
  - destruct (run_bridge_cases available predefined [])
      as [[HB ->] | [[HB ->] | [HB (e & ->)]]];
      cbn [bind conds macros emitted app];
      [ok_inj | ok_inj | intros Hx; discriminate Hx];
      rewrite HB; cbn [negb andb].
    + split; [exact Hnil | reflexivity].
    + split; [exact Hbridge | exact Hbd].
  - destruct (run_shim_cases available predefined [])
      as [[HS ->] | [[HS (sp & Hsp & ->)] | [HS (e & ->)]]];
      cbn [bind conds macros emitted app];
      [ | | intros Hx; discriminate Hx].
    + destruct (run_bridge_cases available predefined [])
        as [[HB ->] | [[HB ->] | [HB (e & ->)]]];
        cbn [bind conds macros emitted app];
        [ok_inj | ok_inj | intros Hx; discriminate Hx];
        rewrite HB; cbn [negb andb].
      * split; [exact Hnil | reflexivity].
      * split; [exact Hbridge | exact Hbd].
    + destruct (run_bridge_cases available
                  (("CLibUSB_shim", "") :: predefined) sp)
        as [[HB ->] | [[HB ->] | [HB (e & ->)]]];
        rewrite bridge_guard_after_shim in HB;
        cbn [bind conds macros emitted];
        [ok_inj | ok_inj | intros Hx; discriminate Hx];
        rewrite HB; cbn [negb andb].
      * split; [apply (unit_outputs_members sp Hsp)
               | apply shim_part_has_no_decls, Hsp].
      * split; [apply (unit_outputs_members sp Hsp)|].
        rewrite decls_of_app, (shim_part_has_no_decls sp Hsp); exact Hbd.
  - destruct (run_bridge_cases available predefined [])
      as [[HB ->] | [[HB ->] | [HB (e & ->)]]];
      cbn [bind conds macros emitted app];
      [ | | intros Hx; discriminate Hx].
    + destruct (run_shim_cases available predefined [])
        as [[HS ->] | [[HS (sp & Hsp & ->)] | [HS (e & ->)]]];
        cbn [bind conds macros emitted app];
        [ok_inj | ok_inj | intros Hx; discriminate Hx];
        rewrite HB; cbn [negb andb].
      * split; [exact Hnil | reflexivity].
      * split; [apply (unit_outputs_members sp Hsp)
               | apply shim_part_has_no_decls, Hsp].
    + destruct (run_shim_cases available (bridge_defs ++ predefined)
                  bridge_items)
        as [[HS ->] | [[HS (sp & Hsp & ->)] | [HS (e & ->)]]];
        cbn [bind conds macros emitted];
        [ok_inj | ok_inj | intros Hx; discriminate Hx];
        rewrite HB; cbn [negb andb].
      * split; [exact Hbridge | exact Hbd].
      * split; [apply (unit_outputs_members sp Hsp)|].
        rewrite decls_of_app, (shim_part_has_no_decls sp Hsp), app_nil_r.
        exact Hbd.
Qed.

Lemma defined_app (n : string) (front rest : list (string * string)) :
  defined n (front ++ rest) = defined n front || defined n rest.
Proof.
  unfold defined.
  induction front as [|[k v] front IH]; cbn [lookup app]; [reflexivity|].
  destruct (String.eqb n k); [reflexivity | exact IH].
Qed.

(** No identifier of a declaration of the bridge is a macro of the
    bridge or the guard of the shim. *)
Lemma bridge_idents_are_no_macros :
  forallb (fun n => negb (defined n (("CLibUSB_shim", "") :: bridge_defs)))
    (flat_map decl_idents bridge_decls) = true.
Proof. vm_compute; reflexivity. Qed.

Lemma clean_covers_bridge_idents (predefined : list (string * string))
    (n : string) :
  clean predefined = true ->
  In n (flat_map decl_idents bridge_decls) ->
  defined n predefined = false.
Proof.
  unfold clean; intros Hc Hin.
  assert (Hsub : forallb
            (fun m => existsb (String.eqb m)
                        (flat_map protected_names [Shim; Bridge]))
            (flat_map decl_idents bridge_decls) = true)
    by (vm_compute; reflexivity).
  pose proof (proj1 (forallb_forall _ _) Hsub n Hin) as Hex.
  apply existsb_exists in Hex; destruct Hex as (m & Hm & Heq).
  apply String.eqb_eq in Heq; subst m.
  pose proof (proj1 (forallb_forall _ _) Hc n Hm) as Hn.
  apply negb_true_iff in Hn; exact Hn.
Qed.




(** ** Outcomes of one inclusion *)

(** X1.  The bridge in any environment whose predefined macros name none
    of its identifiers: nothing when its guard is predefined; otherwise
    it needs <stddef.h> and <stdint.h> and stops at the first that is
    missing; otherwise it adds its sixteen macros and its items, the same
    whatever else is available or predefined, and no identifier of its
    declarations is a macro then, so they are read as written.  It never
    asks for a libusb header. *)
Theorem bridge_outcome (available : string -> bool)
    (predefined : list (string * string)) :
  clean predefined = true ->
  preprocess available predefined LibUSBBridge_h =
    (if defined "LibUSBBridge_h" predefined then Ok (predefined, [])
     else if available "stddef.h"
     then if available "stdint.h"
          then Ok ((bridge_defs ++ predefined)%list, bridge_items)
          else Err (HeaderNotFound "stdint.h")
     else Err (HeaderNotFound "stddef.h"))
  /\ failed (preprocess available predefined LibUSBBridge_h) =
       negb (defined "LibUSBBridge_h" predefined)
       && negb (available "stddef.h" && available "stdint.h")
  /\ List.length bridge_defs = 16%nat
  /\ decls_of bridge_items = bridge_decls
  /\ forallb (fun n => negb (defined n (bridge_defs ++ predefined)))
       (flat_map decl_idents bridge_decls) = true.
Proof.
  intros Hclean.
  assert (H : preprocess available predefined LibUSBBridge_h =
    (if defined "LibUSBBridge_h" predefined then Ok (predefined, [])
     else if available "stddef.h"
     then if available "stdint.h"
          then Ok ((bridge_defs ++ predefined)%list, bridge_items)
          else Err (HeaderNotFound "stdint.h")
     else Err (HeaderNotFound "stddef.h"))).
  { unfold preprocess, initial; rewrite run_bridge.
    destruct (defined "LibUSBBridge_h" predefined); [reflexivity|].
    destruct (available "stddef.h"); [|reflexivity].
    destruct (available "stdint.h"); reflexivity. }
  split; [exact H|]; split; [|split; [reflexivity|split; [reflexivity|]]].
  - rewrite H.
    destruct (defined "LibUSBBridge_h" predefined); [reflexivity|].
    destruct (available "stddef.h"); [|reflexivity].
    destruct (available "stdint.h"); reflexivity.
  - apply forallb_forall; intros n Hin.
    rewrite defined_app, (clean_covers_bridge_idents predefined n Hclean Hin).
    rewrite orb_false_r.
    pose proof (proj1 (forallb_forall _ _) bridge_idents_are_no_macros n Hin)
      as Hn.
    unfold defined in Hn |- *; cbn [lookup] in Hn.
    destruct (String.eqb n "CLibUSB_shim"); [discriminate Hn | exact Hn].
Qed.

Lemma bridge_outcome_witness :
  preprocess std_headers [("NDEBUG", "")] LibUSBBridge_h =
  Ok ((bridge_defs ++ [("NDEBUG", "")])%list, bridge_items).
Proof.
  exact (proj1 (bridge_outcome std_headers [("NDEBUG", "")] eq_refl)).
Defined.

(** X2.  The shim in any environment: it fails exactly when its guard is
    not predefined and neither libusb header is available, and then at
    the [#error]; it never asks for a header that is missing; with the
    guard predefined it does nothing at all. *)
Theorem shim_outcome (available : string -> bool)
    (predefined : list (string * string)) :
  failed (preprocess available predefined shim_h) =
    negb (defined "CLibUSB_shim" predefined)
    && negb (available "libusb-1.0/libusb.h")
    && negb (available "libusb.h")
  /\ preprocess available predefined shim_h =
     (if defined "CLibUSB_shim" predefined then Ok (predefined, [])
      else if available "libusb-1.0/libusb.h"
      then Ok (("CLibUSB_shim", "") :: predefined,
               [IHeader "libusb-1.0/libusb.h"])
      else if available "libusb.h"
      then Ok (("CLibUSB_shim", "") :: predefined, [IHeader "libusb.h"])
      else Err (ErrorDirective "libusb headers not found")).
Proof.
  unfold preprocess, initial; rewrite run_shim.
  destruct (defined "CLibUSB_shim" predefined); [split; reflexivity|].
  destruct (available "libusb-1.0/libusb.h"); [split; reflexivity|].
  destruct (available "libusb.h"); split; reflexivity.
Qed.

(** ** Units of several inclusions *)

(** X3.  In a unit that includes the two headers any number of times in
    any order, only the first inclusion of each header counts: the unit
    preprocesses to what the unit of those first inclusions gives. *)
Theorem only_first_inclusions_count (available : string -> bool)
    (predefined : list (string * string)) (us : list header) :
  preprocess available predefined (unit_of us) =
  preprocess available predefined (unit_of (first_inclusions [] us)).
Proof.
  unfold preprocess, initial.
  rewrite (run_first_inclusions available us [] predefined []
             (fun h (H : In h []) => match H with end)).
  reflexivity.
Qed.



(** X5.  Whatever a unit of the two headers emits, when its predefined
    macros name none of their identifiers, is declared before it is
    used: every typedef name of a prototype has its typedef earlier in
    the unit, [uint16_t] comes after <stdint.h>, every parameter has a
    complete type and a name of its own, and the two headers declare no
    name twice.  (What the system headers declare is not looked into.) *)
Theorem unit_well_scoped (available : string -> bool)
    (predefined : list (string * string)) (us : list header)
    (ms : list (string * string)) (its : list item) :
  preprocess available predefined (unit_of us) = Ok (ms, its) ->
  clean predefined = true ->
  well_scoped its = true.
Proof.
  intros H _; destruct (unit_result _ _ _ _ _ H) as [Hin _].
  exact (proj1 (forallb_forall _ _) unit_outputs_well_scoped its Hin).
Qed.

Lemma unit_well_scoped_witness : well_scoped bridge_items = true.
Proof.
  apply (unit_well_scoped std_headers [] [Bridge; Bridge] bridge_defs).
  - vm_compute; reflexivity.
  - vm_compute; reflexivity.
Defined.



(** X7.  The two headers do not interfere: a unit fails exactly when it
    includes a header that would fail on its own in the same
    environment. *)
Theorem unit_fails_with_a_header (available : string -> bool)
    (predefined : list (string * string)) (us : list header) :
  failed (preprocess available predefined (unit_of us)) =
  (includes Shim us && failed (preprocess available predefined shim_h))
  || (includes Bridge us
      && failed (preprocess available predefined LibUSBBridge_h)).
Proof.
  unfold preprocess, initial.
  rewrite (run_first_inclusions available us [] predefined []
             (fun h (H : In h []) => match H with end)).
  replace (includes Shim us)
    with (includes Shim (first_inclusions [] us))
    by (rewrite first_inclusions_includes; apply andb_true_r).
  replace (includes Bridge us)
    with (includes Bridge (first_inclusions [] us))
    by (rewrite first_inclusions_includes; apply andb_true_r).
  pose proof (first_inclusions_forms us []) as Hforms; cbn in Hforms.
  destruct Hforms as [-> | [-> | [-> | [-> | ->]]]];
    cbn [unit_of lines_of includes existsb header_eqb orb andb];
    rewrite ?app_nil_r, ?run_app.
  - reflexivity.
  - rewrite orb_false_r; reflexivity.
  - reflexivity.
  - destruct (run_shim_cases available predefined [])
      as [[HS ->] | [[HS (sp & Hsp & ->)] | [HS (e & ->)]]];
      cbn [bind conds macros emitted failed orb app].
    + reflexivity.
    + rewrite !run_bridge, bridge_guard_after_shim.
      destruct (defined "LibUSBBridge_h" predefined); [reflexivity|].
      destruct (available "stddef.h"); [|reflexivity].
      destruct (available "stdint.h"); reflexivity.
    + reflexivity.
  - destruct (run_bridge_cases available predefined [])
      as [[HB ->] | [[HB ->] | [HB (e & ->)]]];
      cbn [bind conds macros emitted failed orb app].
    + rewrite orb_false_r; reflexivity.
    + rewrite !run_shim, shim_guard_after_bridge.
      destruct (defined "CLibUSB_shim" predefined); [reflexivity|].
      destruct (available "libusb-1.0/libusb.h"); [reflexivity|].
      destruct (available "libusb.h"); reflexivity.
    + rewrite orb_true_r; reflexivity.
Qed.

(** The macro table after a unit in which the bridge took effect. *)
Lemma unit_macros (available : string -> bool)
    (predefined : list (string * string)) (us : list header)
    (ms : list (string * string)) (its : list item) :
  preprocess available predefined (unit_of us) = Ok (ms, its) ->
  includes Bridge us = true ->
  defined "LibUSBBridge_h" predefined = false ->
  ms = (bridge_defs ++ predefined)%list
  \/ ms = (("CLibUSB_shim", "") :: bridge_defs ++ predefined)%list
  \/ ms = (bridge_defs ++ ("CLibUSB_shim", "") :: predefined)%list.
Proof.
  unfold preprocess, initial.
  rewrite (run_first_inclusions available us [] predefined []
             (fun h (H : In h []) => match H with end)).
  replace (includes Bridge us)
    with (includes Bridge (first_inclusions [] us))
    by (rewrite first_inclusions_includes; apply andb_true_r).
  pose proof (first_inclusions_forms us []) as Hforms; cbn in Hforms.
  intros Hrun Hinc HB; revert Hrun Hinc.
  destruct Hforms as [-> | [-> | [-> | [-> | ->]]]];
    cbn [unit_of lines_of includes existsb header_eqb orb andb];
    rewrite ?app_nil_r, ?run_app; try (intros _ Hx; discriminate Hx).
  - rewrite run_bridge, HB.
    destruct (available "stddef.h"); [|intros Hx; discriminate Hx].
    destruct (available "stdint.h"); [|intros Hx; discriminate Hx].
    cbn [bind conds macros emitted]; ok_inj; auto.
  - destruct (run_shim_cases available predefined [])
      as [[HS ->] | [[HS (sp & Hsp & ->)] | [HS (e & ->)]]];
      cbn [bind conds macros emitted app];
      [ | | intros Hx; discriminate Hx];
      rewrite run_bridge, ?bridge_guard_after_shim, HB;
      (destruct (available "stddef.h"); [|intros Hx; discriminate Hx]);
      (destruct (available "stdint.h"); [|intros Hx; discriminate Hx]);
      cbn [bind conds macros emitted]; ok_inj; auto.
  - rewrite run_bridge, HB.
    destruct (available "stddef.h"); [|intros Hx; discriminate Hx].
    destruct (available "stdint.h"); [|intros Hx; discriminate Hx].
    cbn [bind app].
    destruct (run_shim_cases available (bridge_defs ++ predefined)
                bridge_items)
      as [[HS ->] | [[HS (sp & Hsp & ->)] | [HS (e & ->)]]];
      cbn [bind conds macros emitted];
      [ | | intros Hx; discriminate Hx]; ok_inj; auto.
Qed.

Lemma lookup_app_found (n body : string) (front rest : list (string * string)) :
  lookup n front = Some body -> lookup n (front ++ rest) = Some body.
Proof.
  induction front as [|[k v] front IH]; cbn [lookup app]; [discriminate|].
  destruct (String.eqb n k); auto.
Qed.

(** X8.  The constants survive composition: after any unit in which the
    bridge took effect, every macro of the bridge has the body the bridge
    gives it, wherever and however often the shim and the bridge were
    included.  (C does not allow a macro to be redefined with another
    body, so the statement is made for names that were not predefined.) *)
Theorem bridge_macros_survive (available : string -> bool)
    (predefined : list (string * string)) (us : list header)
    (ms : list (string * string)) (its : list item) (n body : string) :
  preprocess available predefined (unit_of us) = Ok (ms, its) ->
  includes Bridge us = true ->
  defined "LibUSBBridge_h" predefined = false ->
  defined n predefined = false ->
  lookup n bridge_defs = Some body ->
  lookup n ms = Some body.
Proof.
  intros Hrun Hinc HB _ Hn.
  assert (Hne : String.eqb n "CLibUSB_shim" = false).
  { destruct (String.eqb_spec n "CLibUSB_shim") as [->|]; [|reflexivity].
    vm_compute in Hn; discriminate Hn. }
  destruct (unit_macros _ _ _ _ _ Hrun Hinc HB) as [-> | [-> | ->]].
  - apply lookup_app_found, Hn.
  - cbn [lookup]; rewrite Hne; apply lookup_app_found, Hn.
  - apply lookup_app_found, Hn.
Qed.

Lemma bridge_macros_survive_witness :
  lookup "LIBUSB_ERROR_TIMEOUT"
    (("CLibUSB_shim", "") :: bridge_defs ++ [("NDEBUG", "")]) = Some "-7".
Proof.
  apply (bridge_macros_survive (fun _ => true) [("NDEBUG", "")]
           [Bridge; Shim; Bridge] _
           (bridge_items ++ [IHeader "libusb-1.0/libusb.h"]));
    vm_compute; reflexivity.
Defined.

(** ** Endpoint addresses *)

(** X9.  [LIBUSB_ENDPOINT_IN] is 128, bit 7 alone, and
    [LIBUSB_ENDPOINT_OUT] is 0.  So for an endpoint number [n] below 128
    the IN address is [128 + n] and the OUT address is [n]; both fit the
    [unsigned char] that [libusb_interrupt_transfer] takes as endpoint;
    the mask [LIBUSB_ENDPOINT_IN] gives 128 on the one and 0 on the
    other, so the direction can be read back; and the low seven bits are
    the number. *)
Theorem endpoint_directions (n : Z) :
  0 <= n < 128 ->
  constant "LIBUSB_ENDPOINT_IN" = Some 128
  /\ constant "LIBUSB_ENDPOINT_OUT" = Some 0
  /\ endpoint_address "LIBUSB_ENDPOINT_IN" n = Some (128 + n)
  /\ endpoint_address "LIBUSB_ENDPOINT_OUT" n = Some n
  /\ direction_of (128 + n) = Some 128
  /\ direction_of n = Some 0
  /\ fits_uchar (128 + n) = true
  /\ fits_uchar n = true
  /\ Z.land (128 + n) 127 = n
  /\ Z.land n 127 = n.
Proof.
  intros Hn.
  assert (Hall : forallb endpoint_check (codes_from 0 128) = true)
    by (vm_compute; reflexivity).
  assert (Hin : In n (codes_from 0 128)).
  { unfold codes_from; apply in_map_iff; exists (Z.to_nat n); split.
    - rewrite Z2Nat.id; lia.
    - apply in_seq; lia. }
  pose proof (proj1 (forallb_forall _ _) Hall n Hin) as Hc.
  unfold endpoint_check in Hc.
  do 5 (apply andb_true_iff in Hc; destruct Hc as [Hc ?]).
  assert (Hopt : forall o v, opt_is o v = true -> o = Some v).
  { intros [x|] v; cbn; [|discriminate].
    intros Hx; apply Z.eqb_eq in Hx; congruence. }
  repeat match goal with
         | H : opt_is _ _ = true |- _ => apply Hopt in H
         | H : (_ =? _) = true |- _ => apply Z.eqb_eq in H
         end.
  assert (Hlow : Z.land n 127 = n).
  { replace 127 with (Z.ones 7) by reflexivity.
    rewrite Z.land_ones by lia; apply Z.mod_small; lia. }
  assert (Hu : fits_uchar n = true)
    by (unfold fits_uchar; apply andb_true_iff; split;
        [apply Z.leb_le | apply Z.leb_le]; lia).
  repeat split; try assumption; vm_compute; reflexivity.
Qed.

Lemma endpoint_directions_witness :
  endpoint_address "LIBUSB_ENDPOINT_IN" 1 = Some 129
  /\ direction_of 129 = Some 128
  /\ direction_of 1 = Some 0.
Proof.
  destruct (endpoint_directions 1 ltac:(lia))
    as (_ & _ & Ha & _ & Hd & Hd0 & _).
  exact (conj Ha (conj Hd Hd0)).
Defined.
